(** * A shallow embedding of the Go package [blockchain]

    The package (one implementation file) defines a [Block] with its
    [calculateHash] and [mine] methods and a [Blockchain] with
    [CreateBlockchain], [AddTransaction] and [IsValid].  The model below
    follows the Go code statement by statement:
    - Go [int] values ([pow], [difficulty]) are [Z], with the 64-bit
      wrap-around of [pow++] written out;
    - Go strings are [String.string] (a byte string, as in Go);
    - [crypto/sha256] is implemented in full, and [fmt.Sprintf("%x", ...)]
      renders its 32 bytes as 64 lowercase hexadecimal characters;
    - Go runtime panics and non-termination are explicit outcomes, and
      unbounded loops run on fuel;
    - the reading of the clock by [time.Now()] is an explicit argument. *)

From Stdlib Require Import ZArith List String Ascii Bool Lia PrimFloat SpecFloat FloatOps.
From Stdlib Require Import Permutation.
Import ListNotations.

Local Open Scope Z_scope.

(** ** SHA-256 (FIPS 180-4), as used by [sha256.Sum256] *)
Module SHA256.

Definition mask32 : Z := Z.ones 32.

Definition add32 (x y : Z) : Z := Z.land (x + y) mask32.

Definition not32 (x : Z) : Z := Z.lxor x mask32.

Definition rotr (x : Z) (n : Z) : Z :=
  Z.lor (Z.shiftr x n) (Z.land (Z.shiftl x (32 - n)) mask32).

Definition Ch (x y z : Z) : Z := Z.lxor (Z.land x y) (Z.land (not32 x) z).
Definition Maj (x y z : Z) : Z :=
  Z.lxor (Z.lxor (Z.land x y) (Z.land x z)) (Z.land y z).
Definition Sigma0 (x : Z) : Z := Z.lxor (Z.lxor (rotr x 2) (rotr x 13)) (rotr x 22).
Definition Sigma1 (x : Z) : Z := Z.lxor (Z.lxor (rotr x 6) (rotr x 11)) (rotr x 25).
Definition sigma0 (x : Z) : Z := Z.lxor (Z.lxor (rotr x 7) (rotr x 18)) (Z.shiftr x 3).
Definition sigma1 (x : Z) : Z := Z.lxor (Z.lxor (rotr x 17) (rotr x 19)) (Z.shiftr x 10).

(** The round constants and the initial hash value, as FIPS 180-4 defines
    them (4.2.2, 5.3.3): the first 32 bits of the fractional parts of the
    cube roots of the first 64 primes, and of the square roots of the first
    8 primes. *)
Definition is_prime (n : nat) : bool :=
  forallb (fun k => negb (Nat.eqb (Nat.modulo n k) 0)) (seq 2 (n - 2)).

Definition first_primes (count : nat) : list Z :=
  map Z.of_nat (firstn count (filter is_prime (seq 2 400))).

(** [cbrt_floor fuel lo hi x] is the integer cube root of [x] when
    [lo^3 <= x < hi^3] and the fuel covers the bisection. *)
Fixpoint cbrt_floor (fuel : nat) (lo hi x : Z) : Z :=
  match fuel with
  | O => lo
  | S fuel' =>
      if hi - lo <=? 1 then lo
      else let m := (lo + hi) / 2 in
           if m * m * m <=? x then cbrt_floor fuel' m hi x else cbrt_floor fuel' lo m x
  end.

Definition frac32_cbrt (p : Z) : Z := Z.land (cbrt_floor 64 0 (2 ^ 40) (p * 2 ^ 96)) mask32.
Definition frac32_sqrt (p : Z) : Z := Z.land (Z.sqrt (p * 2 ^ 64)) mask32.

Definition K : list Z := Eval vm_compute in map frac32_cbrt (first_primes 64).

(** The eight working variables, and the eight words of the running hash. *)
Record regs := mkRegs { ra : Z; rb : Z; rc : Z; rd : Z; re : Z; rf : Z; rg : Z; rh : Z }.

Definition H0 : regs :=
  Eval vm_compute in
    match map frac32_sqrt (first_primes 8) with
    | [a; b; c; d; e; f; g; h] => mkRegs a b c d e f g h
    | _ => mkRegs 0 0 0 0 0 0 0 0
    end.

Definition round (s : regs) (kw : Z * Z) : regs :=
  let '(k, w) := kw in
  let t1 := add32 (add32 (add32 (add32 (rh s) (Sigma1 (re s))) (Ch (re s) (rf s) (rg s))) k) w in
  let t2 := add32 (Sigma0 (ra s)) (Maj (ra s) (rb s) (rc s)) in
  mkRegs (add32 t1 t2) (ra s) (rb s) (rc s) (add32 (rd s) t1) (re s) (rf s) (rg s).

(** Message schedule: [rw] holds W[t-1], W[t-2], ... (most recent first). *)
Fixpoint schedule (n : nat) (rw : list Z) : list Z :=
  match n with
  | O => rw
  | S n' =>
      let w := add32 (add32 (add32 (sigma1 (nth 1 rw 0)) (nth 6 rw 0))
                            (sigma0 (nth 14 rw 0))) (nth 15 rw 0) in
      schedule n' (w :: rw)
  end.

Fixpoint be_words (bs : list Z) : list Z :=
  match bs with
  | b0 :: b1 :: b2 :: b3 :: rest =>
      (Z.lor (Z.shiftl b0 24) (Z.lor (Z.shiftl b1 16) (Z.lor (Z.shiftl b2 8) b3)))
        :: be_words rest
  | _ => []
  end.

Definition compress (h : regs) (block : list Z) : regs :=
  let ws := rev (schedule 48 (rev (be_words block))) in
  let s := fold_left round (combine K ws) h in
  mkRegs (add32 (ra h) (ra s)) (add32 (rb h) (rb s)) (add32 (rc h) (rc s))
         (add32 (rd h) (rd s)) (add32 (re h) (re s)) (add32 (rf h) (rf s))
         (add32 (rg h) (rg s)) (add32 (rh h) (rh s)).

(** Big-endian bytes of a value on [n] bytes. *)
Fixpoint be_bytes (n : nat) (x : Z) : list Z :=
  match n with
  | O => []
  | S n' => (be_bytes n' (Z.shiftr x 8) ++ [Z.land x 255])%list
  end.

Definition pad (msg : list Z) : list Z :=
  let L := Z.of_nat (List.length msg) in
  (msg ++ [0x80] ++ repeat 0 (Z.to_nat ((55 - L) mod 64)) ++ be_bytes 8 (8 * L))%list.

Fixpoint process (fuel : nat) (h : regs) (bs : list Z) : regs :=
  match fuel with
  | O => h
  | S fuel' =>
      match bs with
      | [] => h
      | _ => process fuel' (compress h (firstn 64 bs)) (skipn 64 bs)
      end
  end.

(** [sha256.Sum256]: the 32-byte digest as the eight final words. *)
Definition Sum256 (msg : list Z) : regs :=
  let p := pad msg in process (List.length p) H0 p.

(** [fmt.Sprintf("%x", digest)]: two lowercase hexadecimal digits per byte. *)
Definition hex_digit (n : Z) : ascii :=
  if n <? 10 then ascii_of_nat (Z.to_nat (48 + n)) else ascii_of_nat (Z.to_nat (87 + n)).

Definition hex_byte (b : Z) : string :=
  String (hex_digit (Z.shiftr b 4)) (String (hex_digit (Z.land b 15)) EmptyString).

Definition hex_word (w : Z) : string :=
  hex_byte (Z.land (Z.shiftr w 24) 255) ++ hex_byte (Z.land (Z.shiftr w 16) 255) ++
  hex_byte (Z.land (Z.shiftr w 8) 255) ++ hex_byte (Z.land w 255).

Definition hex_digest (h : regs) : string :=
  hex_word (ra h) ++ hex_word (rb h) ++ hex_word (rc h) ++ hex_word (rd h) ++
  hex_word (re h) ++ hex_word (rf h) ++ hex_word (rg h) ++ hex_word (rh h).

(** [[]byte(s)] for a Go string. *)
Definition bytes_of_string (s : string) : list Z :=
  map (fun a => Z.of_N (N_of_ascii a)) (list_ascii_of_string s).

Definition sha256_hex (s : string) : string := hex_digest (Sum256 (bytes_of_string s)).

End SHA256.

(** ** The Go standard library pieces the package calls *)
Module Go.

(** Runs of a Go computation: a value, a runtime panic, or a loop that did
    not finish within the fuel given.  The [nat] counts the calls of
    [calculateHash] made so far (a ghost counter, used to state how much
    hashing a call performs). *)
Inductive outcome (A : Type) : Type :=
| Ok (a : A) (hashes : nat)
| Panic (msg : string) (hashes : nat)
| OutOfFuel.
Arguments Ok {A} a hashes.
Arguments Panic {A} msg hashes.
Arguments OutOfFuel {A}.

Definition M (A : Type) : Type := nat -> outcome A.

Definition ret {A} (a : A) : M A := fun n => Ok a n.
Definition panic {A} (msg : string) : M A := fun n => Panic msg n.
Definition out_of_fuel {A} : M A := fun _ => OutOfFuel.
Definition bind {A B} (m : M A) (k : A -> M B) : M B :=
  fun n => match m n with
           | Ok a n' => k a n'
           | Panic s n' => Panic s n'
           | OutOfFuel => OutOfFuel
           end.

Notation "x <- m ;; k" := (bind m (fun x => k))
  (at level 61, m at next level, right associativity).

(** A run from a fresh counter. *)
Definition run {A} (m : M A) : outcome A := m O.

(** Go [int] is 64 bits: [x + 1] wraps around at [2^63]. *)
Definition wrap64 (z : Z) : Z := (z + 2 ^ 63) mod 2 ^ 64 - 2 ^ 63.

(** [strconv.Itoa]: decimal rendering of an [int]. *)
Definition digit (d : Z) : ascii := ascii_of_nat (Z.to_nat (48 + d)).

Fixpoint digits (fuel : nat) (n : Z) (acc : string) : string :=
  match fuel with
  | O => acc
  | S fuel' =>
      if n =? 0 then acc
      else digits fuel' (n / 10) (String (digit (n mod 10)) acc)
  end.

Definition Itoa (i : Z) : string :=
  if i =? 0 then "0"%string
  else if i <? 0 then ("-" ++ digits (S (Z.to_nat (Z.log2 (- i)))) (- i) "")%string
  else digits (S (Z.to_nat (Z.log2 i))) i "".

(** [strings.HasPrefix(s, prefix)]: [len(s) >= len(prefix) && s[0:len(prefix)] == prefix]. *)
Definition HasPrefix (s prefix : string) : bool :=
  (String.length prefix <=? String.length s)%nat &&
  String.eqb (substring 0 (String.length prefix) s) prefix.

Fixpoint repeat_string (n : nat) (s : string) : string :=
  match n with O => EmptyString | S n' => (s ++ repeat_string n' s)%string end.

(** The runtime's [maxAlloc], the largest allocation it attempts: 2^48
    bytes on 64-bit Linux. *)
Definition maxAlloc : Z := 2 ^ 48.

(** [strings.Repeat(s, count)]: [count] 0 and 1 are answered first, a
    negative [count] panics; the length-overflow panic cannot arise for a
    one-byte [s] and a [count] that fits in an [int].  The result is then
    built in a [strings.Builder] grown by [len(s)*count] bytes, and the
    runtime refuses a slice longer than [maxAlloc] with a panic (the
    message of Go 1.21 on; earlier releases say [cap] for [len]).  Below
    that limit the memory is taken to be available. *)
Definition Repeat (s : string) (count : Z) : M string :=
  if count =? 0 then ret EmptyString
  else if count =? 1 then ret s
  else if count <? 0 then panic "strings: negative Repeat count"
  else if maxAlloc <? Z.of_nat (String.length s) * count
  then panic "runtime error: makeslice: len out of range"
  else ret (repeat_string (Z.to_nat count) s).

End Go.

(** The reading of [time.Now()], in nanoseconds. *)
Definition Time : Type := Z.

(** Renderings the package gets from Go's standard library and whose exact
    text does not matter to the properties below: [encoding/json]'s
    encoder of a string and of a finite [float64], and [time.Time.String]. *)
Class GoRender := {
  encodeString : string -> string;
  formatFloat : float -> string;
  timeString : Time -> string
}.

(** The dynamic values stored in a [map[string]interface{}]. *)
Inductive Value : Type :=
| VString (s : string)
| VFloat (f : float).

(** A [map[string]interface{}]: [None] is the nil map, [Some l] a map whose
    entries are [l] (distinct keys, in no particular order). *)
Definition DataMap : Type := option (list (string * Value)).

(** [type Block struct]. *)
Record Block := mkBlock {
  data : DataMap;
  hash : string;
  previousHash : string;
  timestamp : Time;
  pow : Z
}.

(** [type Blockchain struct]. *)
Record Blockchain := mkBlockchain {
  genesisBlock : Block;
  chain : list Block;
  difficulty : Z
}.

Import Go.

Section Package.
Context `{GoRender}.

(** *** [json.Marshal] of a [map[string]interface{}] *)

(** The encoder of one value: a [float64] that is NaN or infinite is an
    [UnsupportedValueError]. *)
Definition encodeValue (v : Value) : option string :=
  match v with
  | VString s => Some (encodeString s)
  | VFloat f => if is_finite f then Some (formatFloat f) else None
  end.

(** The map encoder writes the entries in increasing byte order of their keys. *)
Fixpoint insert_entry (kv : string * Value) (l : list (string * Value)) : list (string * Value) :=
  match l with
  | [] => [kv]
  | kv' :: l' => if String.ltb (fst kv) (fst kv') then kv :: l else kv' :: insert_entry kv l'
  end.

Definition sort_entries (l : list (string * Value)) : list (string * Value) :=
  fold_right insert_entry [] l.

Fixpoint encodeEntries (l : list (string * Value)) : option (list string) :=
  match l with
  | [] => Some []
  | (k, v) :: l' =>
      match encodeValue v, encodeEntries l' with
      | Some sv, Some rest => Some ((encodeString k ++ ":" ++ sv)%string :: rest)
      | _, _ => None
      end
  end.

(** [json.Marshal(m)]: [None] is the error result. *)
Definition Marshal (m : DataMap) : option string :=
  match m with
  | None => Some "null"%string
  | Some l =>
      match encodeEntries (sort_entries l) with
      | Some fields => Some ("{" ++ String.concat "," fields ++ "}")%string
      | None => None
      end
  end.

(** *** The methods of [Block] *)

(** [func (b Block) calculateHash() string]; [data, _ := json.Marshal(b.data)]
    leaves [data] nil, hence [string(data)] empty, on an error. *)
Definition calculateHash (b : Block) : string :=
  let d := match Marshal (data b) with Some s => s | None => EmptyString end in
  let blockData := (previousHash b ++ d ++ timeString (timestamp b) ++ Itoa (pow b))%string in
  SHA256.sha256_hex blockData.

(** A call of [calculateHash], counted.  The receiver is a copy of the block
    ([Block] value receiver), returned unchanged as the caller's block. *)
Definition calculateHashM (b : Block) : M string :=
  fun n => Ok (calculateHash b) (S n).

Definition with_pow (b : Block) (p : Z) : Block :=
  mkBlock (data b) (hash b) (previousHash b) (timestamp b) p.

Definition with_hash (b : Block) (h : string) : Block :=
  mkBlock (data b) h (previousHash b) (timestamp b) (pow b).

(** [func (b *Block) mine(difficulty int)]:
<<
    for !strings.HasPrefix(b.hash, strings.Repeat("0", difficulty)) {
        b.pow++
        b.hash = b.calculateHash()
    }
>>
    [fuel] bounds the number of iterations; the loop condition, with its
    [strings.Repeat], is evaluated before every iteration and once more
    when the loop exits. *)
Fixpoint mine (fuel : nat) (b : Block) (difficulty : Z) : M Block :=
  z <- Repeat "0" difficulty ;;
  if HasPrefix (hash b) z then ret b
  else match fuel with
       | O => out_of_fuel
       | S fuel' =>
           let b1 := with_pow b (wrap64 (pow b + 1)) in
           h <- calculateHashM b1 ;;
           mine fuel' (with_hash b1 h) difficulty
       end.

(** *** The functions and methods of [Blockchain] *)

(** [func CreateBlockchain(difficulty int) Blockchain]; [now] is [time.Now()]. *)
Definition CreateBlockchain (difficulty : Z) (now : Time) : Blockchain :=
  let genesisBlock := mkBlock None "0" "" now 0 in
  mkBlockchain genesisBlock [genesisBlock] difficulty.

(** [b.chain[len(b.chain)-1]]. *)
Definition last_block (c : list Block) : M Block :=
  match rev c with
  | [] => panic "runtime error: index out of range [-1]"
  | x :: _ => ret x
  end.

(** [func (b *Blockchain) AddTransaction(from, to string, amount float64)];
    [now] is [time.Now()], [fuel] bounds the mining loop. *)
Definition AddTransaction (fuel : nat) (from to : string) (amount : float) (now : Time)
    (b : Blockchain) : M Blockchain :=
  let blockData := Some [("from"%string, VString from); ("to"%string, VString to);
                         ("amount"%string, VFloat amount)] in
  lastBlock <- last_block (chain b) ;;
  let newBlock := mkBlock blockData "" (hash lastBlock) now 0 in
  newBlock' <- mine fuel newBlock (difficulty b) ;;
  ret (mkBlockchain (genesisBlock b) (chain b ++ [newBlock'])%list (difficulty b)).

(** The loop of [IsValid] over the pairs [(b.chain[i], b.chain[i+1])]. *)
Fixpoint isValid_loop (previousBlock : Block) (rest : list Block) : M bool :=
  match rest with
  | [] => ret true
  | currentBlock :: rest' =>
      h <- calculateHashM currentBlock ;;
      if negb (String.eqb (hash currentBlock) h)
         || negb (String.eqb (previousHash currentBlock) (hash previousBlock))
      then ret false
      else isValid_loop currentBlock rest'
  end.

(** [func (b Blockchain) IsValid() bool]; [b.chain[1:]] panics on an empty chain. *)
Definition IsValid (b : Blockchain) : M bool :=
  match chain b with
  | [] => panic "runtime error: slice bounds out of range [1:0]"
  | g :: rest => isValid_loop g rest
  end.

(** *** Properties used to state the claims *)

(** The ledgers a program obtains: [CreateBlockchain(d)] followed by any
    finite sequence of [AddTransaction] calls that return. *)
Inductive Reachable (d : Z) : Blockchain -> Prop :=
| reach_create (now : Time) : Reachable d (CreateBlockchain d now)
| reach_add (b b' : Blockchain) (fuel : nat) (from to : string) (amount : float)
    (now : Time) (n n' : nat) :
    Reachable d b ->
    AddTransaction fuel from to amount now b n = Ok b' n' ->
    Reachable d b'.

(** The block [AddTransaction] builds before mining it. *)
Definition new_block (from to : string) (amount : float) (now : Time) (lastBlock : Block) : Block :=
  mkBlock (Some [("from"%string, VString from); ("to"%string, VString to);
                 ("amount"%string, VFloat amount)]) "" (hash lastBlock) now 0.

(** The two checks [IsValid] makes on a pair [(previousBlock, currentBlock)]. *)
Definition pair_ok (previousBlock currentBlock : Block) : Prop :=
  hash currentBlock = calculateHash currentBlock /\
  previousHash currentBlock = hash previousBlock.

(** Every adjacent pair of a block sequence passes both checks. *)
Definition pairs_ok (c : list Block) : Prop :=
  forall (i : nat) (p q : Block),
    nth_error c i = Some p -> nth_error c (S i) = Some q -> pair_ok p q.

(** [IsValid] stops at pair [i]: it is the first pair that fails a check. *)
Definition stops_at (c : list Block) (i : nat) : Prop :=
  (exists p q, nth_error c i = Some p /\ nth_error c (S i) = Some q /\ ~ pair_ok p q) /\
  (forall (j : nat) (p q : Block), (j < i)%nat ->
     nth_error c j = Some p -> nth_error c (S j) = Some q -> pair_ok p q).

(** [s] begins with at least [n] copies of the character [0]. *)
Definition leading_zeros_at_least (n : nat) (s : string) : Prop :=
  forall k : nat, (k < n)%nat -> String.get k s = Some "0"%char.

End Package.

(** The zero [time.Time] (January 1 of year 1, UTC), in Unix nanoseconds. *)
Definition zero_Time : Time := -62135596800000000000.

(** The zero values [Block{}] and [Blockchain{}] (nil map, nil slice). *)
Definition zero_Block : Block := mkBlock None "" "" zero_Time 0.
Definition zero_Blockchain : Blockchain := mkBlockchain zero_Block [] 0.

(** The transaction map [AddTransaction] builds,
    [map[string]interface{}{"from": from, "to": to, "amount": amount}]. *)
Definition txn_data (from to : string) (amount : float) : DataMap :=
  Some [("from"%string, VString from); ("to"%string, VString to);
        ("amount"%string, VFloat amount)].

(** The line [fmt.Println] writes for a [bool]. *)
Definition println_bool (v : bool) : string :=
  ((if v then "true" else "false") ++ String (ascii_of_nat 10) EmptyString)%string.

Section Demo.
Context `{GoRender}.

(** [func main()] of the demo program ([src/main.go]): [t0], [t1], [t2] are
    the readings of [time.Now()] in the three calls, [fuel] bounds each
    mining loop, and the result is the text written to standard output. *)
Definition main (fuel : nat) (t0 t1 t2 : Time) : M string :=
  let myBlockchain := CreateBlockchain 2 t0 in
  myBlockchain <- AddTransaction fuel "Alice" "Bob" 5%float t1 myBlockchain ;;
  myBlockchain <- AddTransaction fuel "John" "Bob" 2%float t2 myBlockchain ;;
  v <- IsValid myBlockchain ;;
  ret (println_bool v).

End Demo.

(** ** A sample rendering, for the concrete runs below

    Go writes [5] for the [float64] 5 and quotes strings; the text of
    [time.Time.String] is replaced by the decimal nanosecond reading.  Only
    integral amounts are rendered as Go does; others become [?]. *)
Definition dquote : string := String (ascii_of_nat 34) EmptyString.

Definition sampleFloat (f : float) : string :=
  match FloatOps.Prim2SF f with
  | SpecFloat.S754_zero s => if s then "-0"%string else "0"%string
  | SpecFloat.S754_finite s m e =>
      let v := if 0 <=? e then Z.pos m * 2 ^ e
               else if Z.pos m mod 2 ^ (- e) =? 0 then Z.pos m / 2 ^ (- e) else 0 in
      if (e <? 0) && negb (Z.pos m mod 2 ^ (- e) =? 0) then "?"%string
      else Itoa (if s then - v else v)
  | _ => "?"%string
  end.

#[export] Instance sampleRender : GoRender := {
  encodeString s := (dquote ++ s ++ dquote)%string;
  formatFloat := sampleFloat;
  timeString := Itoa
}.

(** * Proofs *)

(** ** The SHA-256 implementation against the FIPS 180-4 test vectors *)
Example sha256_abc :
  SHA256.sha256_hex "abc"%string =
  "ba7816bf8f01cfea414140de5dae2223b00361a396177a9cb410ff61f20015ad"%string.
Proof. vm_compute. reflexivity. Qed.

Example sha256_empty :
  SHA256.sha256_hex ""%string =
  "e3b0c44298fc1c149afbf4c8996fb92427ae41e4649b934ca495991b7852b855"%string.
Proof. vm_compute. reflexivity. Qed.

Example sha256_two_blocks :
  SHA256.sha256_hex "abcdbcdecdefdefgefghfghighijhijkijkljklmklmnlmnomnopnopq"%string =
  "248d6a61d20638b8e5c026930c3e6039a33ce45964ff2167f6ecedd419db06c1"%string.
Proof. vm_compute. reflexivity. Qed.

(** ** Lengths of rendered digests *)

Lemma length_append (s t : string) :
  String.length (s ++ t) = (String.length s + String.length t)%nat.
Proof. induction s as [|c s IH]; simpl; [reflexivity | now rewrite IH]. Qed.

Lemma hex_word_length (w : Z) : String.length (SHA256.hex_word w) = 8%nat.
Proof. unfold SHA256.hex_word. now rewrite !length_append. Qed.

Lemma hex_digest_length (h : SHA256.regs) : String.length (SHA256.hex_digest h) = 64%nat.
Proof. unfold SHA256.hex_digest. now rewrite !length_append, !hex_word_length. Qed.

Lemma sha256_hex_length (s : string) : String.length (SHA256.sha256_hex s) = 64%nat.
Proof. apply hex_digest_length. Qed.

(** ** [strings.HasPrefix] and [strings.Repeat] *)

Lemma HasPrefix_empty (s : string) : HasPrefix s EmptyString = true.
Proof. destruct s; reflexivity. Qed.

Lemma HasPrefix_length (s p : string) :
  HasPrefix s p = true -> (String.length p <= String.length s)%nat.
Proof.
  unfold HasPrefix. intros Hp. apply andb_prop in Hp as [Hl _].
  now apply Nat.leb_le.
Qed.

Lemma HasPrefix_cons (c d : ascii) (s p : string) :
  HasPrefix (String c s) (String d p) = (Ascii.eqb c d && HasPrefix s p)%bool.
Proof.
  unfold HasPrefix. simpl.
  destruct (Ascii.eqb c d), (String.length p <=? String.length s)%nat; reflexivity.
Qed.

Lemma length_repeat_string (n : nat) (s : string) :
  String.length (repeat_string n s) = (n * String.length s)%nat.
Proof. induction n as [|n IH]; simpl; [reflexivity | rewrite length_append, IH; lia]. Qed.

Lemma HasPrefix_zeros (n : nat) (s : string) :
  HasPrefix s (repeat_string n "0") = true -> leading_zeros_at_least n s.
Proof.
  revert s. induction n as [|n IH]; intros s Hp k Hk; [lia|].
  destruct s as [|c s].
  - apply HasPrefix_length in Hp. simpl in Hp. lia.
  - change (repeat_string (S n) "0") with (String "0" (repeat_string n "0")) in Hp.
    rewrite HasPrefix_cons in Hp. apply andb_prop in Hp as [Hc Hs].
    apply Ascii.eqb_eq in Hc. subst c.
    destruct k as [|k]; [reflexivity|].
    simpl. apply IH; [assumption | lia].
Qed.

Lemma Repeat_nonneg (d : Z) (n : nat) :
  0 <= d <= maxAlloc -> Repeat "0" d n = Ok (repeat_string (Z.to_nat d) "0") n.
Proof.
  intros Hd. unfold Repeat.
  destruct (Z.eqb_spec d 0) as [->|H0]; [reflexivity|].
  destruct (Z.eqb_spec d 1) as [->|H1]; [reflexivity|].
  destruct (Z.ltb_spec d 0); [lia|].
  change (Z.of_nat (String.length "0")) with 1.
  destruct (Z.ltb_spec maxAlloc (1 * d)); [lia | reflexivity].
Qed.

Lemma Repeat_neg (d : Z) (n : nat) :
  d < 0 -> Repeat "0" d n = Panic "strings: negative Repeat count" n.
Proof.
  intros Hd. unfold Repeat.
  destruct (Z.eqb_spec d 0); [lia|].
  destruct (Z.eqb_spec d 1); [lia|].
  destruct (Z.ltb_spec d 0); [reflexivity | lia].
Qed.

Lemma Repeat_large (d : Z) (n : nat) :
  maxAlloc < d -> Repeat "0" d n = Panic "runtime error: makeslice: len out of range" n.
Proof.
  intros Hd. unfold maxAlloc in Hd. unfold Repeat.
  destruct (Z.eqb_spec d 0); [lia|].
  destruct (Z.eqb_spec d 1); [lia|].
  destruct (Z.ltb_spec d 0); [lia|].
  change (Z.of_nat (String.length "0")) with 1.
  destruct (Z.ltb_spec maxAlloc (1 * d)); unfold maxAlloc in *; [reflexivity | lia].
Qed.

(** [strings.Repeat("0", d)] returns exactly when [0 <= d <= maxAlloc]. *)
Lemma Repeat_ok_range (d : Z) (n : nat) (z : string) (k : nat) :
  Repeat "0" d n = Ok z k -> 0 <= d <= maxAlloc /\ k = n.
Proof.
  intros Hr. destruct (Z.ltb_spec d 0) as [Hd|Hd].
  - rewrite Repeat_neg in Hr by exact Hd. discriminate.
  - destruct (Z.leb_spec d maxAlloc) as [Hm|Hm].
    + rewrite Repeat_nonneg in Hr by lia. inversion Hr. split; [lia | reflexivity].
    + rewrite Repeat_large in Hr by lia. discriminate.
Qed.

(** ** [calculateHash] and [mine] *)
Section Mining.
Context `{GoRender}.

Lemma calculateHash_length (b : Block) : String.length (calculateHash b) = 64%nat.
Proof. apply sha256_hex_length. Qed.

Lemma calculateHash_nonempty (b : Block) : calculateHash b <> EmptyString.
Proof. intros E. pose proof (calculateHash_length b) as L. rewrite E in L. discriminate. Qed.

(** The stored hash is not an input of the hash. *)
Lemma calculateHash_with_hash (b : Block) (h : string) :
  calculateHash (with_hash b h) = calculateHash b.
Proof. reflexivity. Qed.

Lemma mine_neg (fuel : nat) (b : Block) (d : Z) (n : nat) :
  d < 0 -> mine fuel b d n = Panic "strings: negative Repeat count" n.
Proof. intros Hd. destruct fuel; simpl; unfold bind; now rewrite Repeat_neg. Qed.

Lemma mine_zero (fuel : nat) (b : Block) (n : nat) : mine fuel b 0 n = Ok b n.
Proof. destruct fuel; simpl; unfold bind; simpl; now rewrite HasPrefix_empty. Qed.

(** [mine] returns only when [strings.Repeat] does: [0 <= d <= maxAlloc]. *)
Lemma mine_ok_range (fuel : nat) (b : Block) (d : Z) (n : nat) (b' : Block) (n' : nat) :
  mine fuel b d n = Ok b' n' -> 0 <= d <= maxAlloc.
Proof.
  destruct fuel; simpl; unfold bind; destruct (Repeat "0" d n) as [z k| |] eqn:Hr;
    try discriminate; intros _; exact (proj1 (Repeat_ok_range _ _ _ _ Hr)).
Qed.


Lemma mine_prefix (fuel : nat) (b : Block) (d : Z) (n : nat) (b' : Block) (n' : nat) :
  0 <= d -> mine fuel b d n = Ok b' n' ->
  HasPrefix (hash b') (repeat_string (Z.to_nat d) "0") = true.
Proof.
  intros _ Hm0. pose proof (mine_ok_range _ _ _ _ _ _ Hm0) as Hd. revert b n Hm0.
  induction fuel as [|fuel IH]; intros b n Hm;
    simpl in Hm; unfold bind in Hm; rewrite Repeat_nonneg in Hm by exact Hd;
    destruct (HasPrefix (hash b) _) eqn:Hp.
  - now inversion Hm; subst.
  - discriminate.
  - now inversion Hm; subst.
  - unfold calculateHashM in Hm. eapply IH. exact Hm.
Qed.

(** A run of [mine] either returns the block untouched, without hashing, or
    returns it with its stored hash recomputed over its final fields, which
    differ from the input's only in [pow] and [hash]. *)
Lemma mine_shape (fuel : nat) (b : Block) (d : Z) (n : nat) (b' : Block) (n' : nat) :
  mine fuel b d n = Ok b' n' ->
  (b' = b /\ n' = n) \/
  (hash b' = calculateHash b' /\ data b' = data b /\ previousHash b' = previousHash b /\
   timestamp b' = timestamp b /\ (n < n')%nat).
Proof.
  revert b n. induction fuel as [|fuel IH]; intros b n Hm;
    simpl in Hm; unfold bind in Hm; destruct (Repeat "0" d n) as [z k| |] eqn:Hr;
    try discriminate.
  - destruct (HasPrefix (hash b) z); [|discriminate].
    inversion Hm; subst. left. split; [reflexivity|].
    unfold Repeat in Hr. repeat destruct (_ =? _); repeat destruct (_ <? _);
      unfold ret, panic in Hr; congruence.
  - assert (k = n) as ->.
    { unfold Repeat in Hr. repeat destruct (_ =? _); repeat destruct (_ <? _);
        unfold ret, panic in Hr; congruence. }
    destruct (HasPrefix (hash b) z).
    + inversion Hm; subst. now left.
    + unfold calculateHashM in Hm. apply IH in Hm as [[-> ->]|(Hh & Hd & Hp & Ht & Hn)].
      * right. simpl. repeat split; lia.
      * right. simpl in *. repeat split; try assumption; lia.
Qed.


End Mining.

(** ** Block sequences *)

Local Open Scope list_scope.

Lemma nth_error_snoc {A} (c : list A) (x y : A) (i : nat) :
  nth_error (c ++ [x]) i = Some y -> nth_error c i = Some y \/ (i = List.length c /\ y = x).
Proof.
  intros Hn. destruct (Nat.lt_ge_cases i (List.length c)) as [Hl|Hl].
  - left. now rewrite nth_error_app1 in Hn.
  - right. rewrite nth_error_app2 in Hn by exact Hl.
    destruct (i - List.length c)%nat eqn:E; simpl in Hn.
    + split; [lia | congruence].
    + now destruct n.
Qed.

Section Ledger.
Context `{GoRender}.

Lemma pairs_ok_single (g : Block) : pairs_ok [g].
Proof. intros i p q _ Hq. now destruct i. Qed.

Lemma pairs_ok_cons (p q : Block) (r : list Block) :
  pairs_ok (p :: q :: r) <-> pair_ok p q /\ pairs_ok (q :: r).
Proof.
  split.
  - intros Hp. split.
    + now apply (Hp 0%nat).
    + intros i p' q' H1 H2. now apply (Hp (S i)).
  - intros [Hpq Hr] [|i] p' q' H1 H2.
    + simpl in H1, H2. congruence.
    + now apply (Hr i).
Qed.

Lemma pairs_ok_snoc (c0 : list Block) (p x : Block) :
  pairs_ok (c0 ++ [p]) -> pair_ok p x -> pairs_ok ((c0 ++ [p]) ++ [x]).
Proof.
  intros Hc Hpx i p' q' H1 H2.
  apply nth_error_snoc in H2 as [H2|[Hi ->]].
  - apply (Hc i); [|exact H2].
    assert (S i < List.length (c0 ++ [p]))%nat by (apply nth_error_Some; congruence).
    rewrite nth_error_app1 in H1 by lia. exact H1.
  - rewrite length_app in Hi. simpl in Hi. assert (i = List.length c0) as -> by lia.
    rewrite nth_error_app1 in H1 by (rewrite length_app; simpl; lia).
    rewrite nth_error_app2 in H1 by lia. rewrite Nat.sub_diag in H1.
    simpl in H1. inversion H1; subst. exact Hpx.
Qed.

Lemma last_block_ok (c : list Block) (n : nat) (x : Block) (n' : nat) :
  last_block c n = Ok x n' -> n' = n /\ exists c0, c = c0 ++ [x].
Proof.
  unfold last_block. destruct (rev c) as [|y r] eqn:E; [discriminate|].
  intros Hr. inversion Hr; subst. split; [reflexivity|].
  exists (rev r). rewrite <- (rev_involutive c), E. reflexivity.
Qed.

Lemma last_block_snoc (c : list Block) (x : Block) (n : nat) :
  last_block (c ++ [x]) n = Ok x n.
Proof. unfold last_block. now rewrite rev_app_distr. Qed.

Lemma AddTransaction_ok (fuel : nat) (from to : string) (amount : float) (now : Time)
    (b b' : Blockchain) (n n' : nat) :
  AddTransaction fuel from to amount now b n = Ok b' n' ->
  exists c0 lastBlock newBlock',
    chain b = c0 ++ [lastBlock] /\
    mine fuel (new_block from to amount now lastBlock) (difficulty b) n = Ok newBlock' n' /\
    chain b' = chain b ++ [newBlock'] /\ difficulty b' = difficulty b.
Proof.
  unfold AddTransaction, bind. destruct (last_block (chain b) n) as [l k| |] eqn:El;
    try discriminate.
  apply last_block_ok in El as [-> [c0 Hc]].
  destruct (mine fuel _ (difficulty b) n) as [nb k| |] eqn:Em; try discriminate.
  intros Hr. inversion Hr; subst; clear Hr.
  exists c0, l, nb. repeat split; try assumption; reflexivity.
Qed.

Lemma Reachable_shape (d : Z) (b : Blockchain) :
  Reachable d b -> difficulty b = d /\ exists g rest, chain b = g :: rest.
Proof.
  induction 1 as [now|b b' fuel from to amount now n n' Hr [Hd _] Ha].
  - split; [reflexivity|]. eexists _, []. reflexivity.
  - apply AddTransaction_ok in Ha as (c0 & l & nb & Hc & _ & Hc' & Hd').
    split; [congruence|]. rewrite Hc', Hc.
    destruct c0 as [|g r]; simpl; eauto.
Qed.

End Ledger.

(** ** [IsValid] *)
Section Validation.
Context `{GoRender}.

Lemma pair_check_false (p q : Block) :
  (negb (String.eqb (hash q) (calculateHash q))
   || negb (String.eqb (previousHash q) (hash p)))%bool = false <-> pair_ok p q.
Proof.
  unfold pair_ok.
  destruct (String.eqb_spec (hash q) (calculateHash q));
  destruct (String.eqb_spec (previousHash q) (hash p)); simpl; intuition congruence.
Qed.

Lemma isValid_loop_spec (rest : list Block) (prev : Block) (n : nat) :
  exists v k, isValid_loop prev rest n = Ok v (n + k)%nat /\
    (v = true <-> pairs_ok (prev :: rest)) /\
    (v = true -> k = List.length rest) /\
    (v = false -> exists i, k = S i /\ stops_at (prev :: rest) i).
Proof.
  revert prev n. induction rest as [|cur rest IH]; intros prev n.
  - exists true, 0%nat. rewrite Nat.add_0_r. split; [reflexivity|].
    split; [split; [intros _; apply pairs_ok_single | reflexivity]|].
    split; [reflexivity | discriminate].
  - simpl. unfold bind, calculateHashM.
    destruct (negb _ || negb _)%bool eqn:Hc.
    + exists false, 1%nat. rewrite Nat.add_1_r. split; [reflexivity|].
      assert (~ pair_ok prev cur) as Hn.
      { intros Hp. apply pair_check_false in Hp. congruence. }
      split; [|split; [discriminate|]].
      * split; [discriminate|]. intros Hp. apply pairs_ok_cons in Hp as [Hp _]. contradiction.
      * intros _. exists 0%nat. split; [reflexivity|]. split.
        -- exists prev, cur. split; [reflexivity|]. split; [reflexivity | exact Hn].
        -- intros j p q Hj. lia.
    + apply pair_check_false in Hc.
      destruct (IH cur (S n)) as (v & k & Hl & Hv & Ht & Hf).
      exists v, (S k). rewrite Hl. split; [f_equal; lia|].
      split; [|split].
      * rewrite Hv, pairs_ok_cons. tauto.
      * intros Hvt. simpl. now rewrite (Ht Hvt).
      * intros Hvf. destruct (Hf Hvf) as (i & -> & (p & q & H1 & H2 & H3) & Hb).
        exists (S i). split; [reflexivity|]. split.
        -- exists p, q. simpl. split; [exact H1|]. split; [exact H2 | exact H3].
        -- intros [|j] p' q' Hj H1' H2'.
           ++ simpl in H1', H2'. inversion H1'; inversion H2'; subst. exact Hc.
           ++ apply (Hb j); [lia | exact H1' | exact H2'].
Qed.

(** C1 (as amended): on the zero-value [Blockchain], whose chain is empty,
    [IsValid] panics; on a non-empty chain it returns true exactly when every
    adjacent pair [(previous, current)] has [current.hash ==
    current.calculateHash()] and [current.previousHash == previous.hash], and
    it returns false at the first pair that fails, after hashing the blocks
    up to that pair only. *)
Theorem IsValid_correct (b : Blockchain) :
  (chain b = [] -> run (IsValid b) = Panic "runtime error: slice bounds out of range [1:0]" O) /\
  (chain b <> [] ->
   exists v k, run (IsValid b) = Ok v k /\
     (v = true <-> pairs_ok (chain b)) /\
     (v = false -> exists i, k = S i /\ stops_at (chain b) i)).
Proof.
  unfold run, IsValid. split.
  - intros ->. reflexivity.
  - intros Hne. destruct (chain b) as [|g rest]; [contradiction|].
    destruct (isValid_loop_spec rest g 0) as (v & k & Hl & Hv & _ & Hf).
    exists v, k. rewrite Hl. split; [reflexivity|]. split; [exact Hv | exact Hf].
Qed.

(** C5: right after [CreateBlockchain(d)], [IsValid()] returns true, having
    checked no pair and computed no hash. *)
Theorem IsValid_CreateBlockchain (d : Z) (now : Time) :
  run (IsValid (CreateBlockchain d now)) = Ok true O.
Proof. reflexivity. Qed.

End Validation.

(** C1: the claim fails on the zero-value [Blockchain]: its (empty) block
    sequence has no adjacent pair, yet [IsValid] panics instead of returning
    true. *)
Lemma IsValid_zero_Blockchain_panics :
  pairs_ok (chain zero_Blockchain) /\
  run (IsValid zero_Blockchain) = Panic "runtime error: slice bounds out of range [1:0]" O.
Proof.
  split; [|reflexivity].
  intros i p q Hp. destruct i; discriminate.
Qed.

(** ** Ledgers built by [CreateBlockchain] and [AddTransaction] *)
Section Ledgers.
Context `{GoRender}.

Local Open Scope list_scope.

(** C7: the ledger [CreateBlockchain(d)] returns. *)
Theorem CreateBlockchain_spec (d : Z) (now : Time) :
  let b := CreateBlockchain d now in
  hash (genesisBlock b) = "0"%string /\ data (genesisBlock b) = None /\
  timestamp (genesisBlock b) = now /\ previousHash (genesisBlock b) = EmptyString /\
  pow (genesisBlock b) = 0 /\
  chain b = [genesisBlock b] /\ List.length (chain b) = 1%nat /\
  nth_error (chain b) 0 = Some (genesisBlock b) /\ difficulty b = d.
Proof. repeat split. Qed.

(** Mining at a positive difficulty always runs the loop body at least once:
    the fresh block's empty hash has no nonempty prefix. *)
Lemma mine_new_block_hashed (fuel : nat) (from to : string) (amount : float) (now : Time)
    (l : Block) (d : Z) (n : nat) (b' : Block) (n' : nat) :
  1 <= d -> mine fuel (new_block from to amount now l) d n = Ok b' n' ->
  hash b' = calculateHash b' /\ previousHash b' = hash l.
Proof.
  intros Hd Hm. assert (0 <= d) as Hd0 by lia.
  pose proof (mine_prefix _ _ _ _ _ _ Hd0 Hm) as Hp.
  apply mine_shape in Hm as [[-> _]|(Hh & _ & Hph & _)].
  - apply HasPrefix_length in Hp. rewrite length_repeat_string in Hp.
    simpl in Hp. lia.
  - split; assumption.
Qed.

(** The chain invariant holds at every positive difficulty. *)
Theorem chain_invariant_positive_difficulty (d : Z) (b : Blockchain) :
  1 <= d -> Reachable d b -> pairs_ok (chain b).
Proof.
  intros Hd Hr. induction Hr as [now|b b' fuel from to amount now n n' Hr IH Ha].
  - apply pairs_ok_single.
  - pose proof (Reachable_shape _ _ Hr) as [Hdb _].
    apply AddTransaction_ok in Ha as (c0 & l & nb & Hc & Hm & Hc' & _).
    rewrite Hdb in Hm. apply mine_new_block_hashed in Hm as [Hh Hp]; [|exact Hd].
    rewrite Hc', Hc. rewrite Hc in IH. apply pairs_ok_snoc; [exact IH|].
    split; assumption.
Qed.

(** C4: a run of [mine(d)] that returns leaves at least [d] leading ['0']
    characters in the block's hash; hence so does every block of a ledger
    of difficulty [d] but the genesis block. *)
Theorem mined_hash_leading_zeros (d : Z) (Hd : 0 <= d) :
  (forall (fuel : nat) (blk : Block) (n : nat) (blk' : Block) (n' : nat),
     mine fuel blk d n = Ok blk' n' -> leading_zeros_at_least (Z.to_nat d) (hash blk')) /\
  (forall b : Blockchain, Reachable d b ->
     forall (i : nat) (blk : Block), nth_error (chain b) (S i) = Some blk ->
     leading_zeros_at_least (Z.to_nat d) (hash blk)).
Proof.
  assert (Hmine : forall fuel blk n blk' n', mine fuel blk d n = Ok blk' n' ->
            leading_zeros_at_least (Z.to_nat d) (hash blk')).
  { intros fuel blk n blk' n' Hm. apply HasPrefix_zeros. eapply mine_prefix; eassumption. }
  split; [exact Hmine|].
  intros b Hr. induction Hr as [now|b b' fuel from to amount now n n' Hr IH Ha];
    intros i blk Hi.
  - destruct i; discriminate.
  - pose proof (Reachable_shape _ _ Hr) as [Hdb _].
    apply AddTransaction_ok in Ha as (c0 & l & nb & Hc & Hm & Hc' & _).
    rewrite Hc' in Hi. apply nth_error_snoc in Hi as [Hi|[_ ->]].
    + exact (IH i blk Hi).
    + rewrite Hdb in Hm. exact (Hmine _ _ _ _ _ Hm).
Qed.

(** C9: at a negative difficulty every [AddTransaction] panics in
    [strings.Repeat], before any hash is computed (the hash counter is
    unchanged) and without appending a block. *)
Theorem AddTransaction_negative_difficulty_panics (d : Z) (Hd : d < 0)
    (b : Blockchain) (Hr : Reachable d b) :
  forall (fuel : nat) (from to : string) (amount : float) (now : Time) (n : nat),
    AddTransaction fuel from to amount now b n = Panic "strings: negative Repeat count" n.
Proof.
  intros fuel from to amount now n.
  destruct (Reachable_shape _ _ Hr) as [Hdb [g [rest Hc]]].
  unfold AddTransaction, bind.
  assert (exists c0 l, chain b = c0 ++ [l]) as (c0 & l & Hcl).
  { rewrite Hc. destruct (exists_last (l := g :: rest) ltac:(discriminate)) as (c0 & l & E).
    exists c0, l. exact E. }
  rewrite Hcl, last_block_snoc, Hdb, mine_neg by exact Hd. reflexivity.
Qed.

Lemma chain_snoc_form (b : Blockchain) (g : Block) (rest : list Block) :
  chain b = g :: rest -> exists c0 l, chain b = c0 ++ [l].
Proof.
  intros Hc. rewrite Hc.
  destruct (exists_last (l := g :: rest) ltac:(discriminate)) as (c0 & l & E).
  exists c0, l. exact E.
Qed.

(** C10: at difficulty 0 the mining loop never runs.  Every block appended
    to such a ledger keeps the empty hash and proof 0, an [AddTransaction]
    computes no hash, and [IsValid] returns false as soon as one block has
    been appended. *)
Theorem difficulty_zero_ledgers (b : Blockchain) (Hr : Reachable 0 b) :
  (forall (i : nat) (blk : Block), nth_error (chain b) (S i) = Some blk ->
     hash blk = EmptyString /\ pow blk = 0) /\
  (forall (fuel : nat) (from to : string) (amount : float) (now : Time) (n : nat),
     exists blk,
       AddTransaction fuel from to amount now b n =
         Ok (mkBlockchain (genesisBlock b) (chain b ++ [blk]) 0) n /\
       hash blk = EmptyString /\ pow blk = 0) /\
  ((2 <= List.length (chain b))%nat -> exists k, run (IsValid b) = Ok false k).
Proof.
  assert (Hblocks : forall (i : nat) (blk : Block), nth_error (chain b) (S i) = Some blk ->
            hash blk = EmptyString /\ pow blk = 0).
  { clear - Hr. induction Hr as [now|b b' fuel from to amount now n n' Hr IH Ha];
      intros i blk Hi.
    - destruct i; discriminate.
    - pose proof (Reachable_shape _ _ Hr) as [Hdb _].
      apply AddTransaction_ok in Ha as (c0 & l & nb & Hc & Hm & Hc' & _).
      rewrite Hc' in Hi. apply nth_error_snoc in Hi as [Hi|[_ ->]].
      + exact (IH i blk Hi).
      + rewrite Hdb, mine_zero in Hm. inversion Hm; subst. split; reflexivity. }
  destruct (Reachable_shape _ _ Hr) as [Hdb [g [rest Hc]]].
  split; [exact Hblocks|]. split.
  - intros fuel from to amount now n.
    destruct (chain_snoc_form _ _ _ Hc) as (c0 & l & Hcl).
    exists (new_block from to amount now l).
    unfold AddTransaction, bind. rewrite Hcl, last_block_snoc, Hdb, mine_zero.
    split; [reflexivity|]. split; reflexivity.
  - intros Hlen. destruct rest as [|b1 rest]; [rewrite Hc in Hlen; simpl in Hlen; lia|].
    destruct (Hblocks 0%nat b1) as [Hh _]; [now rewrite Hc|].
    exists 1%nat. unfold run, IsValid. rewrite Hc. simpl. unfold bind, calculateHashM.
    rewrite Hh. destruct (String.eqb_spec EmptyString (calculateHash b1)) as [E|E].
    + exfalso. apply (calculateHash_nonempty b1). now rewrite E.
    + reflexivity.
Qed.

(** C2: at difficulty 0, one [AddTransaction] on a new ledger appends a
    block whose stored hash is empty, so it differs from the hash of the
    block's fields. *)
Theorem AddTransaction_difficulty_zero_unhashed (fuel : nat) (from to : string)
    (amount : float) (now0 now1 : Time) :
  exists b', run (AddTransaction fuel from to amount now1 (CreateBlockchain 0 now0)) = Ok b' O /\
    exists blk, nth_error (chain b') 1 = Some blk /\
      hash blk = EmptyString /\ hash blk <> calculateHash blk.
Proof.
  eexists. split.
  - unfold run, AddTransaction, bind. simpl. rewrite mine_zero. reflexivity.
  - eexists. split; [reflexivity|]. split; [reflexivity|].
    intros E. apply (calculateHash_nonempty (new_block from to amount now1
      (mkBlock None "0" "" now0 0))). symmetry. exact E.
Qed.

(** C3: at difficulty 0, [AddTransaction] on a new ledger computes no hash
    (the counter stays 0) and appends the block as built, with [pow] 0 and
    an empty hash. *)
Theorem AddTransaction_difficulty_zero_no_hashing (fuel : nat) (from to : string)
    (amount : float) (now0 now1 : Time) :
  let g := genesisBlock (CreateBlockchain 0 now0) in
  run (AddTransaction fuel from to amount now1 (CreateBlockchain 0 now0)) =
    Ok (mkBlockchain g [g; new_block from to amount now1 g] 0) O /\
  pow (new_block from to amount now1 g) = 0 /\
  hash (new_block from to amount now1 g) = EmptyString.
Proof.
  split; [|split; reflexivity].
  unfold run, AddTransaction, bind. simpl. rewrite mine_zero. reflexivity.
Qed.


End Ledgers.

(** ** [calculateHash] is a function of the block's fields *)

Lemma ascii_compare_lt_trans (a b c : ascii) :
  Ascii.compare a b = Lt -> Ascii.compare b c = Lt -> Ascii.compare a c = Lt.
Proof. unfold Ascii.compare. rewrite !N.compare_lt_iff. lia. Qed.

Lemma string_compare_lt_trans (s1 s2 s3 : string) :
  String.compare s1 s2 = Lt -> String.compare s2 s3 = Lt -> String.compare s1 s3 = Lt.
Proof.
  revert s2 s3. induction s1 as [|a s1 IH]; intros [|b s2] [|c s3]; simpl;
    try discriminate; try reflexivity.
  destruct (Ascii.compare a b) eqn:Eab; try discriminate;
  destruct (Ascii.compare b c) eqn:Ebc; try discriminate; intros H1 H2.
  - apply Ascii.compare_eq_iff in Eab, Ebc. subst. unfold Ascii.compare at 1. rewrite N.compare_refl. eauto.
  - apply Ascii.compare_eq_iff in Eab. subst. now rewrite Ebc.
  - apply Ascii.compare_eq_iff in Ebc. subst. now rewrite Eab.
  - now rewrite (ascii_compare_lt_trans _ _ _ Eab Ebc).
Qed.

Lemma ltb_lt (s1 s2 : string) : String.ltb s1 s2 = true <-> String.compare s1 s2 = Lt.
Proof. unfold String.ltb. destruct (String.compare s1 s2); split; congruence. Qed.

Lemma ltb_trans (s1 s2 s3 : string) :
  String.ltb s1 s2 = true -> String.ltb s2 s3 = true -> String.ltb s1 s3 = true.
Proof. rewrite !ltb_lt. apply string_compare_lt_trans. Qed.

(** Of two distinct keys, exactly one sorts first. *)
Lemma ltb_distinct (s1 s2 : string) :
  s1 <> s2 -> String.ltb s1 s2 = negb (String.ltb s2 s1).
Proof.
  intros Hne. unfold String.ltb. rewrite (String.compare_antisym s2 s1).
  destruct (String.compare s1 s2) eqn:E; simpl; try reflexivity.
  apply String.compare_eq_iff in E. contradiction.
Qed.

Section Hashing.
Context `{GoRender}.

Local Open Scope list_scope.

Lemma insert_entry_comm (x y : string * Value) (l : list (string * Value)) :
  fst x <> fst y -> insert_entry x (insert_entry y l) = insert_entry y (insert_entry x l).
Proof.
  intros Hxy. pose proof (ltb_distinct _ _ Hxy) as Hd.
  induction l as [|z l IH]; simpl.
  - rewrite Hd. destruct (String.ltb (fst y) (fst x)); reflexivity.
  - destruct (String.ltb (fst y) (fst z)) eqn:Eyz, (String.ltb (fst x) (fst z)) eqn:Exz;
      simpl; rewrite ?Eyz, ?Exz.
    + rewrite Hd. destruct (String.ltb (fst y) (fst x)); simpl; rewrite ?Eyz, ?Exz; reflexivity.
    + destruct (String.ltb (fst x) (fst y)) eqn:Exy.
      * rewrite (ltb_trans _ _ _ Exy Eyz) in Exz. discriminate.
      * simpl. rewrite ?Eyz, ?Exz. reflexivity.
    + destruct (String.ltb (fst y) (fst x)) eqn:Eyx.
      * rewrite (ltb_trans _ _ _ Eyx Exz) in Eyz. discriminate.
      * simpl. rewrite ?Eyz, ?Exz. reflexivity.
    + now rewrite IH.
Qed.

(** The order in which a map's entries are listed does not reach the
    encoding: [json.Marshal] sorts the keys. *)
Lemma sort_entries_perm (l1 l2 : list (string * Value)) :
  NoDup (map fst l1) -> Permutation l1 l2 -> sort_entries l1 = sort_entries l2.
Proof.
  intros Hnd Hp. induction Hp as [|x l l' Hp IH|x y l|l l' l'' Hp1 IH1 Hp2 IH2]; simpl.
  - reflexivity.
  - inversion Hnd; subst. now rewrite IH.
  - inversion Hnd as [|? ? Hy Hnd']; subst. inversion Hnd'; subst.
    apply insert_entry_comm. intros E. apply Hy. rewrite E. now left.
  - rewrite IH1 by exact Hnd. apply IH2.
    eapply Permutation_NoDup; [apply Permutation_map; exact Hp1 | exact Hnd].
Qed.

(** C6: two successive calls of [calculateHash] on an unchanged block give
    the same string (and each counts as one call, nothing else happens); the
    receiver is a copy, so the block is left as it was; and the result
    depends on the map only, not on the order in which its entries are
    listed. *)
Theorem calculateHash_deterministic :
  (forall (b : Block) (n : nat),
     (h1 <- calculateHashM b ;; h2 <- calculateHashM b ;; ret (h1, h2, b)) n =
       Ok (calculateHash b, calculateHash b, b) (S (S n))) /\
  (forall (b : Block) (l1 l2 : list (string * Value)),
     data b = Some l1 -> NoDup (map fst l1) -> Permutation l1 l2 ->
     calculateHash b = calculateHash (mkBlock (Some l2) (hash b) (previousHash b) (timestamp b) (pow b))).
Proof.
  split; [reflexivity|].
  intros [d h ph ts p] l1 l2 Hd Hnd Hp. simpl in Hd. subst d.
  unfold calculateHash, Marshal. simpl. now rewrite (sort_entries_perm _ _ Hnd Hp).
Qed.

End Hashing.

(** ** Further properties of the package and of the demo program *)

Lemma wrap64_small (z : Z) : -2 ^ 63 <= z < 2 ^ 63 -> wrap64 z = z.
Proof. intros Hz. unfold wrap64. rewrite Z.mod_small; lia. Qed.

Lemma wrap64_succ (x : Z) : wrap64 (wrap64 x + 1) = wrap64 (x + 1).
Proof.
  unfold wrap64.
  replace ((x + 2 ^ 63) mod 2 ^ 64 - 2 ^ 63 + 1 + 2 ^ 63)
    with ((x + 2 ^ 63) mod 2 ^ 64 + 1) by ring.
  rewrite Zplus_mod_idemp_l. f_equal. f_equal. ring.
Qed.

Lemma iter_wrap64 (k : nat) (p : Z) :
  -2 ^ 63 <= p < 2 ^ 63 ->
  Nat.iter k (fun x => wrap64 (x + 1)) p = wrap64 (p + Z.of_nat k).
Proof.
  intros Hp. induction k as [|k IH]; simpl Nat.iter.
  - rewrite Z.add_0_r. symmetry. now apply wrap64_small.
  - rewrite IH, wrap64_succ. f_equal. lia.
Qed.

Lemma string_app_assoc (s1 s2 s3 : string) :
  ((s1 ++ s2) ++ s3 = s1 ++ s2 ++ s3)%string.
Proof. induction s1 as [|c s1 IH]; simpl; congruence. Qed.

Section Extras.
Context `{GoRender}.

Local Open Scope list_scope.

Lemma mine_no_panic (fuel : nat) (b : Block) (d : Z) (n : nat) (msg : string) (k : nat) :
  0 <= d <= maxAlloc -> mine fuel b d n <> Panic msg k.
Proof.
  intros Hd. revert b n. induction fuel as [|fuel IH]; intros b n;
    simpl; unfold bind; rewrite Repeat_nonneg by exact Hd;
    destruct (HasPrefix _ _); try discriminate.
  unfold calculateHashM. apply IH.
Qed.

(** Each iteration of [mine] increments [pow] once and hashes once. *)
Lemma mine_pow (fuel : nat) (b : Block) (d : Z) (n : nat) (b' : Block) (n' : nat) :
  mine fuel b d n = Ok b' n' ->
  (n <= n')%nat /\ pow b' = Nat.iter (n' - n) (fun x => wrap64 (x + 1)) (pow b).
Proof.
  revert b n. induction fuel as [|fuel IH]; intros b n Hm;
    simpl in Hm; unfold bind in Hm; destruct (Repeat "0" d n) as [z k| |] eqn:Hr;
    try discriminate;
    (assert (k = n) as -> by (unfold Repeat in Hr; repeat destruct (_ =? _);
       repeat destruct (_ <? _); unfold ret, panic in Hr; congruence));
    destruct (HasPrefix (hash b) z); try discriminate.
  - inversion Hm; subst. rewrite Nat.sub_diag. split; reflexivity.
  - inversion Hm; subst. rewrite Nat.sub_diag. split; reflexivity.
  - unfold calculateHashM in Hm. apply IH in Hm as [Hle Hp]. split; [lia|].
    rewrite Hp. simpl. replace (n' - n)%nat with (S (n' - S n)) by lia.
    rewrite Nat.iter_succ_r. reflexivity.
Qed.

Lemma mine_fields (fuel : nat) (b : Block) (d : Z) (n : nat) (b' : Block) (n' : nat) :
  mine fuel b d n = Ok b' n' ->
  data b' = data b /\ previousHash b' = previousHash b /\ timestamp b' = timestamp b.
Proof.
  intros Hm. apply mine_shape in Hm as [[-> _]|(_ & Hd & Hp & Ht & _)];
    [repeat split | repeat split; assumption].
Qed.

Lemma AddTransaction_no_panic_nonneg (fuel : nat) (from to : string) (amount : float)
    (now : Time) (b : Blockchain) (n : nat) (msg : string) (k : nat) :
  0 <= difficulty b <= maxAlloc -> chain b <> [] ->
  AddTransaction fuel from to amount now b n <> Panic msg k.
Proof.
  intros Hd Hne. destruct (chain b) as [|g rest] eqn:Hc; [contradiction|].
  destruct (chain_snoc_form b g rest Hc) as (c0 & l & Hcl).
  unfold AddTransaction, bind. rewrite Hcl, last_block_snoc.
  destruct (mine fuel _ (difficulty b) n) eqn:Hm; try discriminate.
  intros E. inversion E; subst. eapply mine_no_panic; eassumption.
Qed.

Lemma reachable_IsValid_true (d : Z) (b : Blockchain) :
  1 <= d -> Reachable d b -> run (IsValid b) = Ok true (pred (List.length (chain b))).
Proof.
  intros Hd Hr. pose proof (chain_invariant_positive_difficulty d b Hd Hr) as Hok.
  destruct (Reachable_shape _ _ Hr) as [_ [g [rest Hc]]].
  unfold run, IsValid. rewrite Hc. rewrite Hc in Hok.
  destruct (isValid_loop_spec rest g 0) as (v & k & Hl & Hv & Ht & _).
  apply Hv in Hok. subst v. rewrite Hl, (Ht eq_refl). reflexivity.
Qed.

Lemma AddTransaction_genesisBlock (fuel : nat) (from to : string) (amount : float)
    (now : Time) (b b' : Blockchain) (n n' : nat) :
  AddTransaction fuel from to amount now b n = Ok b' n' -> genesisBlock b' = genesisBlock b.
Proof.
  unfold AddTransaction, bind. destruct (last_block (chain b) n); try discriminate.
  destruct (mine _ _ _ _); try discriminate. intros E. now inversion E.
Qed.

(** The demo [main] prints [true] whenever it returns: it never panics and
    never prints [false], whatever the clock readings. *)
Theorem main_prints_true (fuel : nat) (t0 t1 t2 : Time) :
  run (main fuel t0 t1 t2) = OutOfFuel \/
  exists k, run (main fuel t0 t1 t2) = Ok (println_bool true) k.
Proof.
  unfold run, main, bind.
  destruct (AddTransaction fuel "Alice" "Bob" 5%float t1 (CreateBlockchain 2 t0) O)
    as [b1 n1|msg k|] eqn:E1.
  2: { exfalso; refine (AddTransaction_no_panic_nonneg fuel _ _ _ t1 (CreateBlockchain 2 t0) O msg k _ _ E1);
       [unfold CreateBlockchain, maxAlloc; cbn [difficulty]; lia | discriminate]. }
  2: { now left. }
  assert (Hr1 : Reachable 2 b1) by (eapply reach_add; [apply reach_create | exact E1]).
  destruct (Reachable_shape _ _ Hr1) as [Hd1 [g1 [r1 Hc1]]].
  destruct (AddTransaction fuel "John" "Bob" 2%float t2 b1 n1) as [b2 n2|msg k|] eqn:E2.
  2: { exfalso; refine (AddTransaction_no_panic_nonneg fuel _ _ _ t2 b1 n1 msg k _ _ E2);
       [rewrite Hd1; unfold maxAlloc; lia | rewrite Hc1; discriminate]. }
  2: { now left. }
  assert (Hr2 : Reachable 2 b2) by (eapply reach_add; [exact Hr1 | exact E2]).
  pose proof (chain_invariant_positive_difficulty 2 b2 ltac:(lia) Hr2) as Hok.
  destruct (Reachable_shape _ _ Hr2) as [_ [g2 [r2 Hc2]]].
  unfold IsValid. rewrite Hc2. rewrite Hc2 in Hok.
  destruct (isValid_loop_spec r2 g2 n2) as (v & k & Hl & Hv & _).
  apply Hv in Hok. subst v. rewrite Hl. right. eexists. reflexivity.
Qed.

(** [AddTransaction] on a ledger with an empty chain (the zero-value
    [Blockchain]) panics on [b.chain[len(b.chain)-1]] before any hashing. *)
Theorem AddTransaction_empty_chain_panics (b : Blockchain) (Hc : chain b = [])
    (fuel : nat) (from to : string) (amount : float) (now : Time) (n : nat) :
  AddTransaction fuel from to amount now b n = Panic "runtime error: index out of range [-1]" n.
Proof. unfold AddTransaction, bind, last_block. now rewrite Hc. Qed.

(** [AddTransaction] only appends: when it returns, the old blocks are kept
    as they were, the genesis block and the difficulty are unchanged, and
    the one new block carries the transaction map, the clock reading, and
    the hash of the previous last block as its [previousHash]. *)
Theorem AddTransaction_appends (fuel : nat) (from to : string) (amount : float) (now : Time)
    (b b' : Blockchain) (n n' : nat)
    (Ha : AddTransaction fuel from to amount now b n = Ok b' n') :
  exists c0 lastBlock blk,
    chain b = c0 ++ [lastBlock] /\ chain b' = chain b ++ [blk] /\
    genesisBlock b' = genesisBlock b /\ difficulty b' = difficulty b /\
    data blk = txn_data from to amount /\ timestamp blk = now /\
    previousHash blk = hash lastBlock.
Proof.
  pose proof (AddTransaction_genesisBlock _ _ _ _ _ _ _ _ _ Ha) as Hg.
  apply AddTransaction_ok in Ha as (c0 & l & nb & Hc & Hm & Hc' & Hd).
  apply mine_fields in Hm as (Hda & Hp & Ht).
  exists c0, l, nb. repeat split; assumption.
Qed.

(** In every ledger a program obtains, [chain[0]] is the genesis block
    built by [CreateBlockchain] (hash ["0"], nil data, no previous hash,
    [pow] 0), equal to the [genesisBlock] field, and the difficulty is the
    one given at creation. *)
Theorem reachable_genesis (d : Z) (b : Blockchain) (Hr : Reachable d b) :
  exists now, genesisBlock b = mkBlock None "0" "" now 0 /\
    nth_error (chain b) 0 = Some (genesisBlock b) /\ difficulty b = d.
Proof.
  induction Hr as [now|b b' fuel from to amount now n n' Hr IH Ha].
  - exists now. repeat split.
  - destruct IH as (t & Hg & H0 & Hd).
    pose proof (AddTransaction_genesisBlock _ _ _ _ _ _ _ _ _ Ha) as Hg'.
    apply AddTransaction_ok in Ha as (c0 & l & nb & Hc & _ & Hc' & Hd').
    exists t. rewrite Hg', Hc'. split; [exact Hg|]. split; [|congruence].
    rewrite nth_error_app1; [exact H0|]. apply nth_error_Some. congruence.
Qed.

(** At every difficulty, including 0, each block of an obtained ledger but
    the genesis block records the hash of the block before it. *)
Theorem reachable_linked (d : Z) (b : Blockchain) (Hr : Reachable d b) :
  forall (i : nat) (p q : Block),
    nth_error (chain b) i = Some p -> nth_error (chain b) (S i) = Some q ->
    previousHash q = hash p.
Proof.
  induction Hr as [now|b b' fuel from to amount now n n' Hr IH Ha];
    intros i p q Hp Hq.
  - destruct i; discriminate.
  - apply AddTransaction_ok in Ha as (c0 & l & nb & Hc & Hm & Hc' & _).
    apply mine_fields in Hm as (_ & Hph & _).
    rewrite Hc' in Hp, Hq. apply nth_error_snoc in Hq as [Hq|[Hi ->]].
    + assert (S i < List.length (chain b))%nat by (apply nth_error_Some; congruence).
      rewrite nth_error_app1 in Hp by lia.
      exact (IH i p q Hp Hq).
    + rewrite Hc, length_app in Hi. simpl in Hi.
      rewrite nth_error_app1 in Hp by (rewrite Hc, length_app; simpl; lia).
      rewrite Hc, nth_error_app2 in Hp by lia.
      replace (i - List.length c0)%nat with O in Hp by lia.
      simpl in Hp. inversion Hp; subst. exact Hph.
Qed.

(** At a positive difficulty, every obtained ledger passes [IsValid], which
    computes one hash per block after the genesis block. *)
Theorem IsValid_reachable_positive_difficulty (d : Z) (Hd : 1 <= d)
    (b : Blockchain) (Hr : Reachable d b) :
  run (IsValid b) = Ok true (pred (List.length (chain b))).
Proof. exact (reachable_IsValid_true d b Hd Hr). Qed.

(** What [mine] returns is its input block with [pow] advanced, modulo
    2^64, by the number of hashes it computed, and the other fields but
    [hash] unchanged; the hash is the input's when nothing was hashed, and
    the hash of the returned block otherwise. *)
Theorem mine_result (fuel : nat) (b : Block) (d : Z) (n : nat) (b' : Block) (n' : nat)
    (Hp : -2 ^ 63 <= pow b < 2 ^ 63) (Hm : mine fuel b d n = Ok b' n') :
  (n <= n')%nat /\
  b' = mkBlock (data b) (hash b') (previousHash b) (timestamp b)
         (wrap64 (pow b + Z.of_nat (n' - n))) /\
  (n' = n -> hash b' = hash b) /\
  (n' <> n -> hash b' = calculateHash b').
Proof.
  pose proof (mine_pow _ _ _ _ _ _ Hm) as [Hle Hpow].
  rewrite iter_wrap64 in Hpow by exact Hp.
  apply mine_shape in Hm as [[-> ->]|(Hh & Hd & Hph & Ht & Hlt)].
  - rewrite Nat.sub_diag, Z.add_0_r, wrap64_small by exact Hp.
    split; [lia|]. split; [destruct b; reflexivity|]. split; [reflexivity | lia].
  - split; [exact Hle|]. split.
    + destruct b' as [da h ph t p]. simpl in *. congruence.
    + split; [lia | intros _; exact Hh].
Qed.

(** The block [AddTransaction] appends has, as [pow], the number of hashes
    its mining loop computed (modulo 2^64). *)
Theorem AddTransaction_pow_counts_hashes (fuel : nat) (from to : string) (amount : float)
    (now : Time) (b b' : Blockchain) (n n' : nat)
    (Ha : AddTransaction fuel from to amount now b n = Ok b' n') :
  exists blk, chain b' = chain b ++ [blk] /\ pow blk = wrap64 (Z.of_nat (n' - n)).
Proof.
  apply AddTransaction_ok in Ha as (c0 & l & nb & _ & Hm & Hc' & _).
  apply mine_pow in Hm as [_ Hpow].
  rewrite iter_wrap64 in Hpow by (simpl; lia).
  exists nb. split; [exact Hc'|]. exact Hpow.
Qed.

(** Mining a block [mine] has returned returns it again at once, with no
    hashing, whatever the fuel. *)
Theorem mine_idempotent (fuel : nat) (b : Block) (d : Z) (n : nat) (b' : Block) (n' : nat)
    (Hd : 0 <= d) (Hm : mine fuel b d n = Ok b' n') :
  forall (fuel' m : nat), mine fuel' b' d m = Ok b' m.
Proof.
  pose proof (mine_prefix _ _ _ _ _ _ Hd Hm) as Hp.
  pose proof (mine_ok_range _ _ _ _ _ _ Hm) as Hr.
  intros fuel' m. destruct fuel'; simpl; unfold bind; rewrite Repeat_nonneg by exact Hr;
    now rewrite Hp.
Qed.

(** When the amount is NaN or infinite, [json.Marshal] of the transaction
    map fails and [calculateHash] hashes none of the transaction: only the
    previous hash, the timestamp and [pow]. *)
Theorem calculateHash_nonfinite_amount (from to : string) (amount : float)
    (Hf : PrimFloat.is_finite amount = false) (h ph : string) (t : Time) (p : Z) :
  Marshal (txn_data from to amount) = None /\
  calculateHash (mkBlock (txn_data from to amount) h ph t p) =
    SHA256.sha256_hex (ph ++ timeString t ++ Itoa p).
Proof.
  assert (HM : Marshal (txn_data from to amount) = None).
  { unfold Marshal, txn_data. simpl. now rewrite Hf. }
  split; [exact HM|]. unfold calculateHash. simpl data. now rewrite HM.
Qed.

(** For a finite amount, [json.Marshal] of the transaction map writes the
    keys in the order [amount], [from], [to]. *)
Theorem Marshal_txn_data (from to : string) (amount : float)
    (Hf : PrimFloat.is_finite amount = true) :
  Marshal (txn_data from to amount) =
    Some ("{" ++ encodeString "amount" ++ ":" ++ formatFloat amount ++ "," ++
          encodeString "from" ++ ":" ++ encodeString from ++ "," ++
          encodeString "to" ++ ":" ++ encodeString to ++ "}")%string.
Proof.
  unfold Marshal, txn_data. simpl. rewrite Hf. simpl.
  repeat (rewrite string_app_assoc; cbn [String.append]). reflexivity.
Qed.

(** At a negative difficulty no transaction is ever added: every ledger
    obtained is the one [CreateBlockchain] returned. *)
Theorem reachable_negative_difficulty (d : Z) (Hd : d < 0) (b : Blockchain)
    (Hr : Reachable d b) :
  exists now, b = CreateBlockchain d now.
Proof.
  induction Hr as [now|b b' fuel from to amount now n n' Hr IH Ha].
  - now exists now.
  - destruct IH as [t ->]. exfalso.
    unfold AddTransaction, bind in Ha. simpl in Ha.
    rewrite mine_neg in Ha by exact Hd. discriminate.
Qed.

(** On a chain of one block, [IsValid] returns true without hashing,
    whatever that block holds. *)
Theorem IsValid_single_block (b : Blockchain) (g : Block) (Hc : chain b = [g]) :
  run (IsValid b) = Ok true O.
Proof. unfold run, IsValid. now rewrite Hc. Qed.

(** [IsValid] never checks the difficulty: its verdict and its hashing
    depend on the chain alone, not on the [difficulty] nor the
    [genesisBlock] field, so a non-empty chain whose adjacent pairs pass
    both checks is valid at every difficulty, whatever its hashes begin
    with, after one hash per block but the first. *)
Theorem IsValid_ignores_difficulty (g : Block) (c : list Block) (d : Z)
    (Hc : c <> []) (Hok : pairs_ok c) :
  run (IsValid (mkBlockchain g c d)) = Ok true (pred (List.length c)) /\
  forall (g' : Block) (d' : Z), IsValid (mkBlockchain g' c d') = IsValid (mkBlockchain g c d).
Proof.
  destruct c as [|g0 rest]; [contradiction|]. split; [|reflexivity].
  unfold run, IsValid. cbn [chain].
  destruct (isValid_loop_spec rest g0 O) as (v & k & Hl & Hv & Ht & _).
  apply Hv in Hok. subst v. rewrite Hl, (Ht eq_refl). reflexivity.
Qed.

End Extras.

(** ** Concrete runs, with the sample rendering *)

Local Open Scope list_scope.

(** The demo program: [CreateBlockchain(2)], two transactions, [IsValid()]
    prints true (clock readings 1000, 2000 and 3000 ns). *)
Example demo_main :
  match run (AddTransaction 1000 "Alice" "Bob" 5%float 2000 (CreateBlockchain 2 1000)) with
  | Ok b1 _ =>
      match run (AddTransaction 1000 "John" "Bob" 2%float 3000 b1) with
      | Ok b2 _ => (List.length (chain b2), run (IsValid b2)) = (3%nat, Ok true 2%nat)
      | _ => False
      end
  | _ => False
  end.
Proof. vm_compute. reflexivity. Qed.

(** C4 at difficulty 2. *)
Lemma mined_hash_leading_zeros_witness :
  0 <= 2 /\
  (forall (fuel : nat) (blk : Block) (n : nat) (blk' : Block) (n' : nat),
     mine fuel blk 2 n = Ok blk' n' -> leading_zeros_at_least 2 (hash blk')) /\
  (forall b : Blockchain, Reachable 2 b ->
     forall (i : nat) (blk : Block), nth_error (chain b) (S i) = Some blk ->
     leading_zeros_at_least 2 (hash blk)).
Proof. split; [lia|]. apply (mined_hash_leading_zeros 2). lia. Defined.

(** C9 on the ledger [CreateBlockchain(-1)]. *)
Lemma AddTransaction_negative_difficulty_panics_witness :
  -1 < 0 /\ Reachable (-1) (CreateBlockchain (-1) 1000) /\
  AddTransaction 10 "Alice" "Bob" 5%float 2000 (CreateBlockchain (-1) 1000) O =
    Panic "strings: negative Repeat count" O.
Proof.
  split; [lia|]. split; [apply reach_create|].
  apply (AddTransaction_negative_difficulty_panics (-1)); [lia | apply reach_create].
Defined.

(** The ledger of difficulty 0 after one transaction. *)
Definition genesis0 : Block := genesisBlock (CreateBlockchain 0 1000).
Definition ledger0 : Blockchain :=
  mkBlockchain genesis0 [genesis0; new_block "Alice" "Bob" 5%float 2000 genesis0] 0.

(** C10 on [ledger0]. *)
Lemma difficulty_zero_ledgers_witness :
  Reachable 0 ledger0 /\
  ((forall (i : nat) (blk : Block), nth_error (chain ledger0) (S i) = Some blk ->
      hash blk = EmptyString /\ pow blk = 0) /\
   (forall (fuel : nat) (from to : string) (amount : float) (now : Time) (n : nat),
      exists blk,
        AddTransaction fuel from to amount now ledger0 n =
          Ok (mkBlockchain (genesisBlock ledger0) (chain ledger0 ++ [blk]) 0) n /\
        hash blk = EmptyString /\ pow blk = 0) /\
   ((2 <= List.length (chain ledger0))%nat -> exists k, run (IsValid ledger0) = Ok false k)).
Proof.
  assert (Hr : Reachable 0 ledger0).
  { apply (reach_add 0 (CreateBlockchain 0 1000) ledger0 0 "Alice" "Bob" 5%float 2000 O O).
    - apply reach_create.
    - vm_compute. reflexivity. }
  split; [exact Hr|]. exact (difficulty_zero_ledgers ledger0 Hr).
Defined.


(** ** Concrete runs of the further properties *)

(** The ledger of difficulty 1 after one transaction (clock readings 1000
    and 2000 ns): mining took 6 hashes. *)
Definition genesis1 : Block := genesisBlock (CreateBlockchain 1 1000).
Definition block1 : Block :=
  mkBlock (txn_data "Alice" "Bob" 5%float)
    "0d361cd4ff3534848a25cd11f5733a44d4ecaee33b24108b2c2ce73b154ab9e5" "0" 2000 6.
Definition ledger1 : Blockchain := mkBlockchain genesis1 [genesis1; block1] 1.

(** A block hashed but never mined, after the genesis block of a ledger of
    difficulty 3. *)
Definition unmined_block : Block :=
  let blk := mkBlock None "" "0" 1000 0 in with_hash blk (calculateHash blk).
Definition unmined_ledger : Blockchain :=
  mkBlockchain (genesisBlock (CreateBlockchain 3 1000))
    [genesisBlock (CreateBlockchain 3 1000); unmined_block] 3.


Lemma IsValid_ignores_difficulty_witness :
  chain unmined_ledger <> [] /\ pairs_ok (chain unmined_ledger) /\
  run (IsValid (mkBlockchain (genesisBlock unmined_ledger) (chain unmined_ledger) 3)) =
    Ok true (pred (List.length (chain unmined_ledger))) /\
  forall (g' : Block) (d' : Z),
    IsValid (mkBlockchain g' (chain unmined_ledger) d') =
    IsValid (mkBlockchain (genesisBlock unmined_ledger) (chain unmined_ledger) 3).
Proof.
  assert (Hc : chain unmined_ledger <> []) by discriminate.
  assert (Hok : pairs_ok (chain unmined_ledger)).
  { apply pairs_ok_cons. split; [|apply pairs_ok_single].
    split; vm_compute; reflexivity. }
  split; [exact Hc|]. split; [exact Hok|].
  exact (IsValid_ignores_difficulty (genesisBlock unmined_ledger) (chain unmined_ledger) 3 Hc Hok).
Defined.

Lemma AddTransaction_empty_chain_panics_witness :
  chain zero_Blockchain = [] /\
  AddTransaction 10 "Alice" "Bob" 5%float 2000 zero_Blockchain O =
    Panic "runtime error: index out of range [-1]" O.
Proof.
  split; [reflexivity|]. apply (AddTransaction_empty_chain_panics zero_Blockchain). reflexivity.
Defined.

Lemma AddTransaction_appends_witness :
  AddTransaction 100 "Alice" "Bob" 5%float 2000 (CreateBlockchain 1 1000) O = Ok ledger1 6 /\
  exists c0 lastBlock blk,
    chain (CreateBlockchain 1 1000) = c0 ++ [lastBlock] /\
    chain ledger1 = chain (CreateBlockchain 1 1000) ++ [blk] /\
    genesisBlock ledger1 = genesisBlock (CreateBlockchain 1 1000) /\
    difficulty ledger1 = difficulty (CreateBlockchain 1 1000) /\
    data blk = txn_data "Alice" "Bob" 5%float /\ timestamp blk = 2000 /\
    previousHash blk = hash lastBlock.
Proof.
  split; [vm_compute; reflexivity|].
  apply (AddTransaction_appends 100 "Alice" "Bob" 5%float 2000 (CreateBlockchain 1 1000)
           ledger1 O 6).
  vm_compute. reflexivity.
Defined.

Lemma reachable_genesis_witness :
  Reachable 1 ledger1 /\
  exists now, genesisBlock ledger1 = mkBlock None "0" "" now 0 /\
    nth_error (chain ledger1) 0 = Some (genesisBlock ledger1) /\ difficulty ledger1 = 1.
Proof.
  assert (Hr : Reachable 1 ledger1).
  { apply (reach_add 1 (CreateBlockchain 1 1000) ledger1 100 "Alice" "Bob" 5%float 2000 O 6).
    - apply reach_create.
    - vm_compute. reflexivity. }
  split; [exact Hr|]. exact (reachable_genesis 1 ledger1 Hr).
Defined.

Lemma reachable_linked_witness :
  Reachable 0 ledger0 /\
  forall (i : nat) (p q : Block),
    nth_error (chain ledger0) i = Some p -> nth_error (chain ledger0) (S i) = Some q ->
    previousHash q = hash p.
Proof.
  assert (Hr : Reachable 0 ledger0).
  { apply (reach_add 0 (CreateBlockchain 0 1000) ledger0 0 "Alice" "Bob" 5%float 2000 O O).
    - apply reach_create.
    - vm_compute. reflexivity. }
  split; [exact Hr|]. exact (reachable_linked 0 ledger0 Hr).
Defined.

Lemma IsValid_reachable_positive_difficulty_witness :
  1 <= 1 /\ Reachable 1 ledger1 /\ run (IsValid ledger1) = Ok true 1.
Proof.
  assert (Hr : Reachable 1 ledger1).
  { apply (reach_add 1 (CreateBlockchain 1 1000) ledger1 100 "Alice" "Bob" 5%float 2000 O 6).
    - apply reach_create.
    - vm_compute. reflexivity. }
  split; [lia|]. split; [exact Hr|].
  apply (IsValid_reachable_positive_difficulty 1); [lia | exact Hr].
Defined.

Lemma mine_result_witness :
  -2 ^ 63 <= pow (new_block "Alice" "Bob" 5%float 2000 genesis1) < 2 ^ 63 /\
  mine 100 (new_block "Alice" "Bob" 5%float 2000 genesis1) 1 O = Ok block1 6 /\
  ((O <= 6)%nat /\
   block1 = mkBlock (data (new_block "Alice" "Bob" 5%float 2000 genesis1)) (hash block1)
              (previousHash (new_block "Alice" "Bob" 5%float 2000 genesis1))
              (timestamp (new_block "Alice" "Bob" 5%float 2000 genesis1))
              (wrap64 (pow (new_block "Alice" "Bob" 5%float 2000 genesis1) + Z.of_nat (6 - 0))) /\
   (6%nat = O -> hash block1 = hash (new_block "Alice" "Bob" 5%float 2000 genesis1)) /\
   (6%nat <> O -> hash block1 = calculateHash block1)).
Proof.
  assert (Hp : -2 ^ 63 <= pow (new_block "Alice" "Bob" 5%float 2000 genesis1) < 2 ^ 63)
    by (unfold new_block; cbn [pow]; lia).
  assert (Hm : mine 100 (new_block "Alice" "Bob" 5%float 2000 genesis1) 1 O = Ok block1 6)
    by (vm_compute; reflexivity).
  split; [exact Hp|]. split; [exact Hm|].
  exact (mine_result 100 _ 1 O block1 6 Hp Hm).
Defined.

Lemma AddTransaction_pow_counts_hashes_witness :
  AddTransaction 100 "Alice" "Bob" 5%float 2000 (CreateBlockchain 1 1000) O = Ok ledger1 6 /\
  exists blk, chain ledger1 = chain (CreateBlockchain 1 1000) ++ [blk] /\
    pow blk = wrap64 (Z.of_nat (6 - 0)).
Proof.
  assert (Ha : AddTransaction 100 "Alice" "Bob" 5%float 2000 (CreateBlockchain 1 1000) O
               = Ok ledger1 6) by (vm_compute; reflexivity).
  split; [exact Ha|]. exact (AddTransaction_pow_counts_hashes _ _ _ _ _ _ _ _ _ Ha).
Defined.

Lemma mine_idempotent_witness :
  0 <= 1 /\ mine 100 (new_block "Alice" "Bob" 5%float 2000 genesis1) 1 O = Ok block1 6 /\
  forall (fuel' m : nat), mine fuel' block1 1 m = Ok block1 m.
Proof.
  assert (Hm : mine 100 (new_block "Alice" "Bob" 5%float 2000 genesis1) 1 O = Ok block1 6)
    by (vm_compute; reflexivity).
  split; [lia|]. split; [exact Hm|].
  apply (mine_idempotent 100 (new_block "Alice" "Bob" 5%float 2000 genesis1) 1 O block1 6);
    [lia | exact Hm].
Defined.

Lemma calculateHash_nonfinite_amount_witness :
  PrimFloat.is_finite PrimFloat.nan = false /\
  Marshal (txn_data "Alice" "Bob" PrimFloat.nan) = None /\
  calculateHash (mkBlock (txn_data "Alice" "Bob" PrimFloat.nan) "" "0" 2000 0) =
    SHA256.sha256_hex ("0" ++ timeString 2000 ++ Itoa 0).
Proof.
  assert (Hf : PrimFloat.is_finite PrimFloat.nan = false) by reflexivity.
  split; [exact Hf|].
  exact (calculateHash_nonfinite_amount "Alice" "Bob" PrimFloat.nan Hf "" "0" 2000 0).
Defined.

Lemma Marshal_txn_data_witness :
  PrimFloat.is_finite 5%float = true /\
  Marshal (txn_data "Alice" "Bob" 5%float) =
    Some ("{" ++ encodeString "amount" ++ ":" ++ formatFloat 5%float ++ "," ++
          encodeString "from" ++ ":" ++ encodeString "Alice" ++ "," ++
          encodeString "to" ++ ":" ++ encodeString "Bob" ++ "}")%string.
Proof.
  assert (Hf : PrimFloat.is_finite 5%float = true) by reflexivity.
  split; [exact Hf|]. exact (Marshal_txn_data "Alice" "Bob" 5%float Hf).
Defined.

Lemma reachable_negative_difficulty_witness :
  -1 < 0 /\ Reachable (-1) (CreateBlockchain (-1) 1000) /\
  exists now, CreateBlockchain (-1) 1000 = CreateBlockchain (-1) now.
Proof.
  split; [lia|]. split; [apply reach_create|].
  apply (reachable_negative_difficulty (-1)); [lia | apply reach_create].
Defined.

Lemma IsValid_single_block_witness :
  chain (CreateBlockchain 3 1000) = [genesisBlock (CreateBlockchain 3 1000)] /\
  run (IsValid (CreateBlockchain 3 1000)) = Ok true O.
Proof.
  split; [reflexivity|].
  apply (IsValid_single_block _ (genesisBlock (CreateBlockchain 3 1000))). reflexivity.
Defined.
